(** * A round-robin HTTP load balancer (main.go), embedded and verified

    The program keeps a list of upstream servers and a cursor
    [roundRobinCount]; [GetNextAvailableServer] probes the server at
    [roundRobinCount % len(servers)], skips it while it reports not alive,
    and [ServeProxy] forwards the request to the server found.

    Go's [int] is a signed machine integer that wraps silently, [%] is the
    truncated remainder (it takes the sign of the dividend), a zero divisor
    and an index outside a slice panic, and the [for] loop has no bound.
    All four are written out below. *)

From Stdlib Require Import ZArith Lia.
From stdpp Require Import base list strings.

Open Scope Z_scope.

(** ** Machine integers *)

Module GoInt.

(** Width of [int] on the 64-bit targets. *)
Definition intSize : Z := 64.
Definition modulus : Z := 2 ^ intSize.
Definition MaxInt : Z := 2 ^ (intSize - 1) - 1.
Definition MinInt : Z := - 2 ^ (intSize - 1).

Definition in_range (z : Z) : Prop := MinInt <= z <= MaxInt.

(** Two's complement reduction of a mathematical integer. *)
Definition wrap (z : Z) : Z := (z - MinInt) mod modulus + MinInt.

(** [x++] *)
Definition incr (x : Z) : Z := wrap (x + 1).

End GoInt.

Import GoInt.

(** ** Outcomes of a Go computation *)

Inductive panic : Type :=
  | DivideByZero
  | IndexOutOfRange (i len : Z).

(** [Spin] is the loop budget of the model running out: the Go loop is then
    still going round. *)
Inductive Res (A : Type) : Type :=
  | Ret (a : A)
  | Panic (p : panic)
  | Spin.

Arguments Ret {A} a.
Arguments Panic {A} p.
Arguments Spin {A}.

#[global] Instance Res_ret : MRet Res := fun _ a => Ret a.
#[global] Instance Res_bind : MBind Res := fun _ _ f m =>
  match m with
  | Ret a => f a
  | Panic p => Panic p
  | Spin => Spin
  end.

Definition returns {A} (r : Res A) : bool :=
  match r with Ret _ => true | _ => false end.

Definition spins {A} (r : Res A) : bool :=
  match r with Spin => true | _ => false end.

(** [a % b] on [int]. *)
Definition int_rem (a b : Z) : Res Z :=
  if b =? 0 then Panic DivideByZero else Ret (Z.rem a b).

(** [len(s)] *)
Definition len {A} (s : list A) : Z := Z.of_nat (length s).

(** [s[i]] with its bounds check. *)
Definition index {A} (s : list A) (i : Z) : Res A :=
  if i <? 0 then Panic (IndexOutOfRange i (len s))
  else match s !! Z.to_nat i with
       | Some a => Ret a
       | None => Panic (IndexOutOfRange i (len s))
       end.

(** ** HTTP, as far as the balancer sees it *)

Record Request : Type := { reqMethod : string; reqPath : string; reqBody : string }.
Record Response : Type := { status : Z; payload : string }.

Definition StatusBadGateway : Z := 502.

(** A round tripper answers a request sent to a URL, or fails at the
    transport level (connection refused, timeout). *)
Definition URL : Type := string.
Definition RoundTripper : Type := URL -> Request -> option Response.

(** [httputil.ReverseProxy]: relays the upstream's answer; a transport error
    goes to its default error handler, which answers 502. *)
Record ReverseProxy : Type := { target : URL; Transport : RoundTripper }.

Definition ServeHTTP (p : ReverseProxy) (req : Request) : Response :=
  match Transport p (target p) req with
  | Some resp => resp
  | None => {| status := StatusBadGateway; payload := "" |}
  end.

(** ** The [Server] interface and [SimpleServer] *)

Class Server (T : Type) : Type := {
  Address : T -> string;
  IsAlive : T -> bool;
  Serve : T -> Request -> Response
}.

Record SimpleServer : Type := { addr : string; proxy : ReverseProxy }.

Section Construction.

(** The process-wide [http.DefaultTransport] and [url.Parse] come from the
    standard library of Go. *)
Variable DefaultTransport : RoundTripper.
Variable url_Parse : string -> option URL.

Definition NewSingleHostReverseProxy (u : URL) : ReverseProxy :=
  {| target := u; Transport := DefaultTransport |}.

(** [None] is the [log.Fatalf] exit on an address that does not parse. *)
Definition NewSimpleServer (a : string) : option SimpleServer :=
  match url_Parse a with
  | None => None
  | Some serverURL =>
      Some {| addr := a; proxy := NewSingleHostReverseProxy serverURL |}
  end.

End Construction.

#[global] Instance SimpleServer_Server : Server SimpleServer := {
  Address s := addr s;
  IsAlive _ := true;
  Serve s req := ServeHTTP (proxy s) req
}.

(** The interface admits implementations whose health report varies; the
    program ships none.  This one wraps a [SimpleServer] with a recorded
    flag and is what the statements about dead servers are evaluated on. *)
Record FlaggedServer : Type := { inner : SimpleServer; flag : bool }.

#[global] Instance FlaggedServer_Server : Server FlaggedServer := {
  Address s := addr (inner s);
  IsAlive s := flag s;
  Serve s req := ServeHTTP (proxy (inner s)) req
}.

(** ** The load balancer *)

Section Balancer.

Context {T : Type} `{Server T}.

Record LoadBalancer : Type := {
  port : string;
  roundRobinCount : Z;
  servers : list T
}.

Definition NewLoadBalancer (p : string) (ss : list T) : LoadBalancer :=
  {| port := p; roundRobinCount := 0; servers := ss |}.

(** [lb.roundRobinCount++] *)
Definition bump (lb : LoadBalancer) : LoadBalancer :=
  {| port := port lb;
     roundRobinCount := incr (roundRobinCount lb);
     servers := servers lb |}.

(** The [for] loop of [GetNextAvailableServer] followed by the final
    increment; [fuel] bounds the number of times the loop body runs. *)
Fixpoint GetNextAvailableServer (fuel : nat) (lb : LoadBalancer)
  : Res (T * LoadBalancer) :=
  match fuel with
  | O => Spin
  | S fuel' =>
      i ← int_rem (roundRobinCount lb) (len (servers lb));
      server ← index (servers lb) i;
      if IsAlive server then Ret (server, bump lb)
      else GetNextAvailableServer fuel' (bump lb)
  end.

(** What a call of [ServeProxy] does to the outside. *)
Inductive Event : Type :=
  | Forwarding (address : string)
  | Served (address : string) (resp : Response).

Definition ServeProxy (fuel : nat) (lb : LoadBalancer) (r : Request)
  : Res (LoadBalancer * list Event) :=
  '(targetServer, lb') ← GetNextAvailableServer fuel lb;
  Ret (lb', [Forwarding (Address targetServer);
             Served (Address targetServer) (Serve targetServer r)]).

End Balancer.

Arguments LoadBalancer T : clear implicits.

Section Runs.

Context {T : Type} `{Server T}.

(** [n] selections one after the other. *)
Fixpoint calls (n fuel : nat) (lb : LoadBalancer T) : Res (list T * LoadBalancer T) :=
  match n with
  | O => Ret ([], lb)
  | S n' =>
      '(s, lb1) ← GetNextAvailableServer fuel lb;
      '(ss, lb2) ← calls n' fuel lb1;
      Ret (s :: ss, lb2)
  end.

(** The handler of [main] run on a sequence of requests, one at a time. *)
Fixpoint serveAll (fuel : nat) (lb : LoadBalancer T) (rs : list Request)
  : Res (LoadBalancer T * list Event) :=
  match rs with
  | [] => Ret (lb, [])
  | r :: rs' =>
      '(lb1, evs1) ← ServeProxy fuel lb r;
      '(lb2, evs2) ← serveAll fuel lb1 rs';
      Ret (lb2, evs1 ++ evs2)
  end.

(** The [j]-th probe of one selection: the loop body's first line after
    [j] skips, each skip being one [roundRobinCount++]. *)
Definition probe (lb : LoadBalancer T) (j : nat) : Res T :=
  i ← int_rem (Nat.iter j incr (roundRobinCount lb)) (len (servers lb));
  index (servers lb) i.



Definition all_dead (ss : list T) : Prop := ∀ s, s ∈ ss → IsAlive s = false.
Definition all_alive (ss : list T) : Prop := ∀ s, s ∈ ss → IsAlive s = true.

(** Exactly one position of [ss] holds a server that reports alive. *)
Definition only_alive_at (ss : list T) (i0 : nat) (a : T) : Prop :=
  ss !! i0 = Some a ∧ IsAlive a = true ∧
  ∀ j s, ss !! j = Some s → j ≠ i0 → IsAlive s = false.

End Runs.

(** Forward attempts in a trace, and those answered 502. *)
Definition is_attempt (e : Event) : bool :=
  match e with Served _ _ => true | Forwarding _ => false end.

Definition is_bad_gateway (e : Event) : bool :=
  match e with
  | Served _ resp => status resp =? StatusBadGateway
  | Forwarding _ => false
  end.

Definition attempts (evs : list Event) : nat := length (List.filter is_attempt evs).
Definition bad_gateways (evs : list Event) : nat := length (List.filter is_bad_gateway evs).

Definition responses (evs : list Event) : list Response :=
  flat_map (fun e => match e with Served _ resp => [resp] | Forwarding _ => [] end) evs.

Definition badGateway : Response := {| status := StatusBadGateway; payload := "" |}.

(** The trace and the final balancer of a run that came to an end. *)
Definition trace {T} (r : Res (LoadBalancer T * list Event)) : option (list Event) :=
  match r with Ret (_, evs) => Some evs | _ => None end.

Definition final {T} (r : Res (LoadBalancer T * list Event)) : option (LoadBalancer T) :=
  match r with Ret (lb, _) => Some lb | _ => None end.

(** ** The pool of [main] and the inputs the statements are evaluated on *)

(** A [SimpleServer] as [NewSimpleServer] builds it from an address that
    parses to itself. *)
Definition simple (net : RoundTripper) (a : string) : SimpleServer :=
  {| addr := a; proxy := NewSingleHostReverseProxy net a |}.

Definition amazon : string := "https://www.amazon.com".
Definition yahoo : string := "http://www.yahoo.com".
Definition instagram : string := "http://www.instagram.com".

Definition main_servers (net : RoundTripper) : list SimpleServer :=
  [simple net amazon; simple net yahoo; simple net instagram].

Definition main_lb (net : RoundTripper) : LoadBalancer SimpleServer :=
  NewLoadBalancer "8000" (main_servers net).

Definition with_cursor {T} (c : Z) (lb : LoadBalancer T) : LoadBalancer T :=
  {| port := port lb; roundRobinCount := c; servers := servers lb |}.

(** Every upstream refuses the connection. *)
Definition net_down : RoundTripper := fun _ _ => None.

Definition ok200 : Response := {| status := 200; payload := "hello" |}.

(** Only the third upstream of [main] answers. *)
Definition net_third_up : RoundTripper := fun u _ =>
  if String.eqb u instagram then Some ok200 else None.

Definition get_root : Request := {| reqMethod := "GET"; reqPath := "/"; reqBody := "" |}.

Definition dead (a : string) : FlaggedServer := {| inner := simple net_down a; flag := false |}.
Definition live (a : string) : FlaggedServer := {| inner := simple net_down a; flag := true |}.

Definition lb_all_dead : LoadBalancer FlaggedServer :=
  NewLoadBalancer "8000" [dead amazon; dead yahoo; dead instagram].

Definition lb_one_alive_at_wrap : LoadBalancer FlaggedServer :=
  with_cursor MaxInt (NewLoadBalancer "8000" [live amazon; dead yahoo; dead instagram]).

Definition lb_at_wrap : LoadBalancer SimpleServer := with_cursor MaxInt (main_lb net_down).

Definition lb_empty : LoadBalancer SimpleServer := NewLoadBalancer "8000" [].


Definition lb_single : LoadBalancer SimpleServer :=
  NewLoadBalancer "8000" [simple net_down amazon].



(** A pool with dead servers between the live ones. *)
Definition lb_mixed : LoadBalancer FlaggedServer :=
  with_cursor 6 (NewLoadBalancer "8000" [dead amazon; live yahoo; dead instagram; live amazon]).

(** The pool of [main] with the cursor wrapped to [MinInt]. *)
Definition lb_wrapped : LoadBalancer SimpleServer := with_cursor MinInt (main_lb net_down).

Definition four_requests : list Request := [get_root; get_root; get_root; get_root].

(** ** Facts about machine integers, remainders and indexing *)

Lemma modulus_pos : 0 < modulus.
Proof. reflexivity. Qed.

Lemma MaxInt_MinInt : MaxInt = MinInt + modulus - 1.
Proof. reflexivity. Qed.

Lemma MinInt_neg : MinInt < 0.
Proof. reflexivity. Qed.

Lemma wrap_in_range z : in_range z → wrap z = z.
Proof.
  unfold in_range, wrap. rewrite MaxInt_MinInt. intros Hz.
  rewrite Z.mod_small; lia.
Qed.

Lemma wrap_range z : in_range (wrap z).
Proof.
  unfold in_range, wrap. rewrite MaxInt_MinInt.
  pose proof (Z.mod_pos_bound (z - MinInt) modulus modulus_pos). lia.
Qed.

Lemma wrap_wrap_add a b : wrap (wrap a + b) = wrap (a + b).
Proof.
  unfold wrap. f_equal.
  replace ((a - MinInt) mod modulus + MinInt + b - MinInt)
    with ((a - MinInt) mod modulus + b) by lia.
  rewrite Zplus_mod_idemp_l. f_equal. lia.
Qed.

Lemma incr_below c : 0 <= c → c < MaxInt → incr c = c + 1.
Proof.
  intros H0 H1. apply wrap_in_range. unfold in_range.
  pose proof MinInt_neg. lia.
Qed.

Lemma incr_MaxInt : incr MaxInt = MinInt.
Proof. reflexivity. Qed.

Lemma int_rem_nonneg c n : 0 <= c → 0 < n → int_rem c n = Ret (c mod n).
Proof.
  intros Hc Hn. unfold int_rem.
  destruct (Z.eqb_spec n 0) as [->|_]; [lia|].
  by rewrite Z.rem_mod_nonneg by lia.
Qed.

Lemma index_Ret {A} (s : list A) i a :
  index s i = Ret a ↔ 0 <= i ∧ s !! Z.to_nat i = Some a.
Proof.
  unfold index. destruct (Z.ltb_spec i 0) as [Hneg|Hpos].
  - split; [discriminate | lia].
  - destruct (s !! Z.to_nat i) as [x|]; split.
    + intros [= ->]. auto.
    + intros [_ [= ->]]. done.
    + discriminate.
    + intros [_ ?]. discriminate.
Qed.

Lemma index_lookup {A} (s : list A) i a :
  0 <= i → s !! Z.to_nat i = Some a → index s i = Ret a.
Proof. intros. apply index_Ret. auto. Qed.

Lemma index_elem_of {A} (s : list A) i a : index s i = Ret a → a ∈ s.
Proof. intros [_ Hl]%index_Ret. by eapply list_elem_of_lookup_2. Qed.

Lemma lookup_mod_is_Some {A} (s : list A) c :
  s ≠ [] → is_Some (s !! Z.to_nat (c mod len s)).
Proof.
  intros Hne. apply lookup_lt_is_Some.
  assert (0 < len s) as Hlen.
  { unfold len. destruct s; [done | simpl; lia]. }
  pose proof (Z.mod_pos_bound c (len s) Hlen). unfold len in *. lia.
Qed.

Lemma len_pos {A} (s : list A) : s ≠ [] → 0 < len s.
Proof. unfold len. destruct s; [done | simpl; lia]. Qed.

(** [simple] is what the constructor of the program builds when the
    address parses to itself. *)
Lemma NewSimpleServer_simple (net : RoundTripper) (a : string) :
  NewSimpleServer net Some a = Some (simple net a).
Proof. reflexivity. Qed.

(** ** The selection loop *)

Section Selection.

Context {T : Type} `{Server T}.

Implicit Types (lb : LoadBalancer T) (s : T) (fuel : nat).

Lemma with_cursor_bump c lb : with_cursor c (bump lb) = with_cursor c lb.
Proof. reflexivity. Qed.

Lemma probe_bump lb j : probe (bump lb) j = probe lb (S j).
Proof. unfold probe. simpl servers. simpl roundRobinCount. by rewrite Nat.iter_succ_r. Qed.

(** One more turn of the loop never changes an answer already given. *)
Lemma fuel_mono fuel fuel' lb :
  (fuel ≤ fuel')%nat →
  spins (GetNextAvailableServer fuel lb) = false →
  GetNextAvailableServer fuel' lb = GetNextAvailableServer fuel lb.
Proof.
  revert fuel' lb. induction fuel as [|fuel IH]; intros fuel' lb Hle Hns.
  - discriminate.
  - destruct fuel' as [|fuel']; [lia|]. simpl in *.
    destruct (int_rem _ _) as [i| |]; simpl in *; try done.
    destruct (index _ i) as [s| |]; simpl in *; try done.
    destruct (IsAlive s); [done|]. apply IH; [lia | done].
Qed.

(** The loop leaves everything but the cursor alone. *)
Lemma GetNext_frame fuel lb s lb' :
  GetNextAvailableServer fuel lb = Ret (s, lb') →
  servers lb' = servers lb ∧ port lb' = port lb.
Proof.
  revert lb. induction fuel as [|fuel IH]; intros lb Hr; [discriminate|].
  simpl in Hr.
  destruct (int_rem _ _) as [i| |]; simpl in Hr; try done.
  destruct (index _ i) as [x| |]; simpl in Hr; try done.
  destruct (IsAlive x).
  - by injection Hr as <- <-.
  - apply IH in Hr. by destruct Hr.
Qed.

(** A server that is handed back is a member of the list and reported
    alive when it was probed. *)
Lemma GetNext_sound fuel lb s lb' :
  GetNextAvailableServer fuel lb = Ret (s, lb') →
  s ∈ servers lb ∧ IsAlive s = true.
Proof.
  revert lb. induction fuel as [|fuel IH]; intros lb Hr; [discriminate|].
  simpl in Hr.
  destruct (int_rem _ _) as [i| |]; simpl in Hr; try done.
  destruct (index _ i) as [x| |] eqn:Hx; simpl in Hr; try done.
  destruct (IsAlive x) eqn:Hal.
  - injection Hr as <- <-. split; [by eapply index_elem_of | done].
  - by apply IH in Hr.
Qed.

Lemma all_dead_never_returns fuel lb :
  all_dead (servers lb) → returns (GetNextAvailableServer fuel lb) = false.
Proof.
  intros Hdead.
  destruct (GetNextAvailableServer fuel lb) as [[s lb']| |] eqn:Hr; try done.
  apply GetNext_sound in Hr as [Hin Hal]. apply Hdead in Hin. congruence.
Qed.

(** A selection that returns did so after [k] skips: probes [0..k-1] met
    dead servers, probe [k] met the one returned, and the cursor was
    incremented [k+1] times. *)
Lemma GetNext_forward fuel lb s lb' :
  GetNextAvailableServer fuel lb = Ret (s, lb') →
  ∃ k : nat, (k < fuel)%nat ∧
    (∀ j : nat, (j < k)%nat → ∃ d, probe lb j = Ret d ∧ IsAlive d = false) ∧
    probe lb k = Ret s ∧ IsAlive s = true ∧
    lb' = with_cursor (Nat.iter (S k) incr (roundRobinCount lb)) lb.
Proof.
  revert lb. induction fuel as [|fuel IH]; intros lb Hr; [discriminate|].
  simpl in Hr.
  destruct (int_rem _ _) as [i| |] eqn:Hi; simpl in Hr; try done.
  destruct (index _ i) as [x| |] eqn:Hx; simpl in Hr; try done.
  destruct (IsAlive x) eqn:Hal.
  - injection Hr as <- <-. exists 0%nat.
    repeat split; [lia | intros; lia | | done].
    unfold probe. simpl. by rewrite Hi.
  - apply IH in Hr as (k & Hk & Hskip & Hhit & Hs & ->).
    exists (S k). repeat split; [lia | | by rewrite <- probe_bump | done |].
    + intros [|j] Hj.
      * exists x. split; [|done]. unfold probe. simpl. by rewrite Hi.
      * rewrite <- probe_bump. apply Hskip. lia.
    + rewrite with_cursor_bump. f_equal.
      simpl roundRobinCount. by rewrite <- Nat.iter_succ_r.
Qed.

(** Away from the wrap the [j]-th cursor is [c + j]. *)
Lemma iter_incr c (j : nat) :
  0 <= c → c + Z.of_nat j <= MaxInt → Nat.iter j incr c = c + Z.of_nat j.
Proof.
  intros Hc. induction j as [|j IH]; intros Hj.
  - simpl. lia.
  - rewrite Nat.iter_succ, IH by lia. rewrite incr_below; lia.
Qed.

(** Skipping [k] dead servers and returning the next one, with no wrap on
    the way. *)
Lemma skip_run (k : nat) lb a fuel :
  0 <= roundRobinCount lb →
  roundRobinCount lb + Z.of_nat k <= MaxInt →
  servers lb ≠ [] →
  (∀ j : nat, (j < k)%nat → ∃ d,
     servers lb !! Z.to_nat ((roundRobinCount lb + Z.of_nat j) mod len (servers lb)) = Some d
     ∧ IsAlive d = false) →
  servers lb !! Z.to_nat ((roundRobinCount lb + Z.of_nat k) mod len (servers lb)) = Some a →
  IsAlive a = true →
  GetNextAvailableServer (k + S fuel) lb
  = Ret (a, with_cursor (incr (roundRobinCount lb + Z.of_nat k)) lb).
Proof.
  revert lb. induction k as [|k IH]; intros lb Hc Hk Hne Hskip Hhit Hal.
  - simpl. rewrite Z.add_0_r in *.
    pose proof (len_pos _ Hne) as Hlen.
    rewrite int_rem_nonneg by lia. simpl.
    assert (0 <= roundRobinCount lb mod len (servers lb)) by (apply Z.mod_pos_bound; lia).
    rewrite (index_lookup _ _ a) by done. simpl. by rewrite Hal.
  - pose proof (len_pos _ Hne) as Hlen.
    destruct (Hskip 0%nat) as (d & Hd & Hdd); [lia|].
    rewrite Z.add_0_r in Hd.
    replace (S k + S fuel)%nat with (S (k + S fuel)) by lia.
    cbn [GetNextAvailableServer].
    rewrite int_rem_nonneg by lia. simpl.
    assert (0 <= roundRobinCount lb mod len (servers lb)) by (apply Z.mod_pos_bound; lia).
    rewrite (index_lookup _ _ d) by done. simpl. rewrite Hdd.
    assert (roundRobinCount (bump lb) = roundRobinCount lb + 1) as Hb.
    { simpl. apply incr_below; lia. }
    rewrite (IH (bump lb)).
    + rewrite with_cursor_bump, Hb.
      by replace (roundRobinCount lb + 1 + Z.of_nat k)
        with (roundRobinCount lb + Z.of_nat (S k)) by lia.
    + rewrite Hb. lia.
    + rewrite Hb. lia.
    + done.
    + intros j Hj. destruct (Hskip (S j)) as (d' & Hd' & Hdd'); [lia|].
      exists d'. split; [|done]. rewrite Hb. simpl servers.
      by replace (roundRobinCount lb + 1 + Z.of_nat j)
        with (roundRobinCount lb + Z.of_nat (S j)) by lia.
    + rewrite Hb. simpl servers.
      by replace (roundRobinCount lb + 1 + Z.of_nat k)
        with (roundRobinCount lb + Z.of_nat (S k)) by lia.
    + done.
Qed.

End Selection.

(** ** Dead pools, wrapped cursors, single survivors *)

Section Skipping.

Context {T : Type} `{Server T}.

Implicit Types (lb : LoadBalancer T) (s : T) (fuel : nat).

(** With every server dead the loop is still running after as many turns
    as there are cursor values left before the wrap. *)
Lemma all_dead_spins fuel lb :
  all_dead (servers lb) → servers lb ≠ [] →
  0 <= roundRobinCount lb →
  roundRobinCount lb + Z.of_nat fuel <= MaxInt + 1 →
  GetNextAvailableServer fuel lb = Spin.
Proof.
  revert lb. induction fuel as [|fuel IH]; intros lb Hdead Hne Hc Hf; [done|].
  pose proof (len_pos _ Hne) as Hlen.
  cbn [GetNextAvailableServer]. rewrite int_rem_nonneg by lia. simpl.
  destruct (lookup_mod_is_Some (servers lb) (roundRobinCount lb) Hne) as [d Hd].
  assert (0 <= roundRobinCount lb mod len (servers lb)) by (apply Z.mod_pos_bound; lia).
  rewrite (index_lookup _ _ d) by done. simpl.
  rewrite (Hdead d) by (by eapply list_elem_of_lookup_2).
  destruct fuel as [|fuel]; [done|].
  apply IH; try done; simpl roundRobinCount; rewrite incr_below; lia.
Qed.

(** A pool of one dead server never leaves the loop, whatever the cursor:
    [c % 1] is always [0]. *)
Lemma single_dead_spins_forever fuel p c (d : T) :
  IsAlive d = false →
  GetNextAvailableServer fuel {| port := p; roundRobinCount := c; servers := [d] |} = Spin.
Proof.
  intros Hd. revert c. induction fuel as [|fuel IH]; intros c; [done|].
  cbn [GetNextAvailableServer]. simpl roundRobinCount. simpl servers.
  unfold int_rem. simpl len. simpl. rewrite Z.rem_1_r. simpl.
  rewrite Hd. apply IH.
Qed.

(** A cursor whose remainder is negative indexes below the slice. *)
Lemma negative_remainder_panics fuel lb :
  servers lb ≠ [] →
  Z.rem (roundRobinCount lb) (len (servers lb)) < 0 →
  GetNextAvailableServer (S fuel) lb
  = Panic (IndexOutOfRange (Z.rem (roundRobinCount lb) (len (servers lb)))
                           (len (servers lb))).
Proof.
  intros Hne Hneg. pose proof (len_pos _ Hne) as Hlen.
  cbn [GetNextAvailableServer]. unfold int_rem.
  destruct (Z.eqb_spec (len (servers lb)) 0) as [E|_]; [lia|]. simpl.
  unfold index. destruct (Z.ltb_spec (Z.rem (roundRobinCount lb) (len (servers lb))) 0); [done|lia].
Qed.

(** With one survivor and no wrap on the way, the survivor is returned
    after fewer than [len] skips. *)
Lemma sole_survivor_found lb (i0 : nat) (a : T) fuel :
  only_alive_at (servers lb) i0 a →
  0 <= roundRobinCount lb →
  roundRobinCount lb + len (servers lb) <= MaxInt →
  ∃ k : nat, (k < length (servers lb))%nat ∧
    GetNextAvailableServer (k + S fuel) lb
    = Ret (a, with_cursor (incr (roundRobinCount lb + Z.of_nat k)) lb).
Proof.
  intros (Hi0 & Hal & Hothers) Hc Hmax.
  set (c := roundRobinCount lb) in *. set (ss := servers lb) in *.
  assert (ss ≠ []) as Hne by (intros E; rewrite E in Hi0; done).
  pose proof (len_pos _ Hne) as Hlen.
  pose proof (lookup_lt_Some _ _ _ Hi0) as Hi0lt.
  set (N := len ss) in *.
  assert (Z.of_nat i0 < N) as Hi0N by (unfold N, len; lia).
  pose proof (Z.mod_pos_bound (Z.of_nat i0 - c) N Hlen) as Hkb.
  exists (Z.to_nat ((Z.of_nat i0 - c) mod N)).
  split; [unfold N, len in *; lia|].
  apply skip_run; fold c ss N; try done.
  - lia.
  - intros j Hj.
    destruct (lookup_mod_is_Some ss (c + Z.of_nat j) Hne) as [d Hd]. fold N in Hd.
    exists d. split; [done|]. eapply Hothers; [exact Hd|].
    intros E.
    assert ((c + Z.of_nat j) mod N = Z.of_nat i0) as E'.
    { pose proof (Z.mod_pos_bound (c + Z.of_nat j) N Hlen). lia. }
    assert ((Z.of_nat i0 - c) mod N = Z.of_nat j) as E''.
    { rewrite <- E', Zminus_mod_idemp_l.
      replace (c + Z.of_nat j - c) with (Z.of_nat j) by lia.
      apply Z.mod_small. lia. }
    lia.
  - rewrite Z2Nat.id by lia. rewrite Zplus_mod_idemp_r.
    replace (c + (Z.of_nat i0 - c)) with (Z.of_nat i0) by lia.
    rewrite Z.mod_small by lia. by rewrite Nat2Z.id.
Qed.

End Skipping.

(** C1: with zero backends alive the selection is claimed to fail with
    NoAvailableBackend within [len] probes.  On the pool of three dead
    servers at a fresh cursor the loop is still running after three turns,
    is still running after any number of turns up to 2^63, and hands back
    nothing for any number of turns: there is no failure exit. *)
Theorem all_dead_selection_never_fails_fast :
  all_dead (servers lb_all_dead) ∧
  GetNextAvailableServer 3 lb_all_dead = Spin ∧
  GetNextAvailableServer (Z.to_nat (MaxInt + 1)) lb_all_dead = Spin ∧
  ∀ fuel, returns (GetNextAvailableServer fuel lb_all_dead) = false.
Proof.
  assert (all_dead (servers lb_all_dead)) as Hdead.
  { intros s Hs. apply list_elem_of_In in Hs. simpl in Hs.
    intuition (subst; done). }
  split; [done|]. split; [reflexivity|]. split.
  - apply all_dead_spins; [done | done | simpl; lia |].
    simpl roundRobinCount. rewrite Z2Nat.id by done. lia.
  - intros fuel. by apply all_dead_never_returns.
Qed.

(** C5: with exactly one backend alive the selection is claimed to return
    it for every cursor value.  At the cursor [MaxInt], with only the first
    of three servers alive, the probe at index 1 skips, the cursor wraps to
    [MinInt], and [MinInt % 3 = -2] indexes below the slice: the call
    panics and the live server is never returned. *)
Theorem sole_survivor_lost_at_wrap :
  only_alive_at (servers lb_one_alive_at_wrap) 0 (live amazon) ∧
  GetNextAvailableServer 1 lb_one_alive_at_wrap = Spin ∧
  (∀ fuel, GetNextAvailableServer (S (S fuel)) lb_one_alive_at_wrap
           = Panic (IndexOutOfRange (-2) 3)) ∧
  ∀ fuel, returns (GetNextAvailableServer fuel lb_one_alive_at_wrap) = false.
Proof.
  split.
  { split; [done|]. split; [done|].
    intros [|[|[|j]]] s Hs Hj; simpl in Hs; try done; by injection Hs as <-. }
  split; [reflexivity|].
  assert (∀ fuel, GetNextAvailableServer (S (S fuel)) lb_one_alive_at_wrap
                  = Panic (IndexOutOfRange (-2) 3)) as Hp by (intros; reflexivity).
  split; [done|].
  intros [|[|fuel]]; [done | done | by rewrite Hp].
Qed.

(** C6: a wrapped cursor is claimed neither to crash the selection nor to
    index outside the set.  On the pool of [main] with the cursor at
    [MaxInt], one call returns the second server and wraps the cursor to
    [MinInt]; the next call computes [MinInt % 3 = -2] and panics with an
    index out of range. *)
Theorem wrapped_cursor_crashes :
  ∀ fuel,
    GetNextAvailableServer (S fuel) lb_at_wrap
    = Ret (simple net_down yahoo, with_cursor MinInt lb_at_wrap) ∧
    GetNextAvailableServer (S fuel) (with_cursor MinInt lb_at_wrap)
    = Panic (IndexOutOfRange (-2) 3) ∧
    ServeProxy (S fuel) (with_cursor MinInt lb_at_wrap) get_root
    = Panic (IndexOutOfRange (-2) 3).
Proof. intros fuel. repeat split; reflexivity. Qed.

Section EmptyPool.

Context {T : Type} `{Server T}.

(** C10: for a balancer whose server slice is empty, every call of
    [GetNextAvailableServer], and so of [ServeProxy], panics on the
    division by zero in [roundRobinCount % len(servers)]; no server is
    ever returned, whatever the cursor. *)
Theorem empty_pool_divides_by_zero (p : string) (c : Z) (fuel : nat) (r : Request) :
  GetNextAvailableServer (T:=T) (S fuel) {| port := p; roundRobinCount := c; servers := [] |}
  = Panic DivideByZero ∧
  ServeProxy (T:=T) (S fuel) {| port := p; roundRobinCount := c; servers := [] |} r
  = Panic DivideByZero ∧
  ∀ n, returns (GetNextAvailableServer (T:=T) n
                  {| port := p; roundRobinCount := c; servers := [] |}) = false.
Proof.
  split; [reflexivity|]. split; [reflexivity|]. intros [|n]; reflexivity.
Qed.

End EmptyPool.

(** ** Round robin over live pools *)

Section RoundRobin.

Context {T : Type} `{Server T}.

Implicit Types (lb : LoadBalancer T) (s : T) (fuel : nat).


(** One selection on a live pool: the server under the cursor, one
    increment. *)
Lemma live_pool_step lb fuel :
  servers lb ≠ [] → all_alive (servers lb) →
  0 <= roundRobinCount lb → roundRobinCount lb < MaxInt →
  ∃ a, servers lb !! Z.to_nat (roundRobinCount lb mod len (servers lb)) = Some a ∧
       GetNextAvailableServer (S fuel) lb
       = Ret (a, with_cursor (roundRobinCount lb + 1) lb).
Proof.
  intros Hne Hal Hc Hmax.
  destruct (lookup_mod_is_Some (servers lb) (roundRobinCount lb) Hne) as [a Ha].
  exists a. split; [done|].
  pose proof (skip_run 0 lb a fuel) as Hrun.
  change (Z.of_nat 0) with 0 in Hrun. rewrite !Z.add_0_r in Hrun.
  rewrite incr_below in Hrun by done.
  apply Hrun; try done.
  - lia.
  - intros j Hj. lia.
  - apply Hal. by eapply list_elem_of_lookup_2.
Qed.

(** [n] selections on a live pool walk the list cyclically from the
    cursor. *)
Lemma calls_live_pool (n : nat) lb fuel :
  servers lb ≠ [] → all_alive (servers lb) →
  0 <= roundRobinCount lb → roundRobinCount lb + Z.of_nat n <= MaxInt →
  ∃ got, calls n (S fuel) lb = Ret (got, with_cursor (roundRobinCount lb + Z.of_nat n) lb) ∧
    length got = n ∧
    ∀ i : nat, (i < n)%nat →
      got !! i = servers lb !! Z.to_nat ((roundRobinCount lb + Z.of_nat i) mod len (servers lb)).
Proof.
  revert lb. induction n as [|n IH]; intros lb Hne Hal Hc Hmax.
  - exists []. split; [|split; [done | intros; lia]].
    simpl. rewrite Z.add_0_r. by destruct lb.
  - destruct (live_pool_step lb fuel) as (a & Ha & Hstep); try done; [lia|].
    destruct (IH (with_cursor (roundRobinCount lb + 1) lb)) as (got & Hcalls & Hlen & Hgot);
      try done; simpl roundRobinCount; try lia.
    exists (a :: got). split; [|split].
    + cbn [calls]. rewrite Hstep. simpl. rewrite Hcalls. simpl.
      do 2 f_equal. unfold with_cursor. simpl. f_equal. lia.
    + simpl. by rewrite Hlen.
    + intros [|i] Hi.
      * simpl. by rewrite Z.add_0_r.
      * simpl. rewrite Hgot by lia. simpl.
        by replace (roundRobinCount lb + 1 + Z.of_nat i)
          with (roundRobinCount lb + Z.pos (Pos.of_succ_nat i)) by lia.
Qed.




End RoundRobin.

(** One selection over [SimpleServer]s at a non-negative cursor. *)
Lemma simple_pool_step (lb : LoadBalancer SimpleServer) (fuel : nat) :
  servers lb ≠ [] → 0 <= roundRobinCount lb →
  ∃ s, servers lb !! Z.to_nat (roundRobinCount lb mod len (servers lb)) = Some s ∧
       GetNextAvailableServer (S fuel) lb = Ret (s, bump lb).
Proof.
  intros Hne Hc. pose proof (len_pos _ Hne) as Hpos.
  destruct (lookup_mod_is_Some (servers lb) (roundRobinCount lb) Hne) as [s Hs].
  exists s. split; [done|].
  cbn [GetNextAvailableServer]. rewrite int_rem_nonneg by done. simpl.
  rewrite (index_lookup _ _ s); [done | apply Z.mod_pos_bound; done | done].
Qed.


(** ** Dispatch *)

Section Dispatch.

Context {T : Type} `{Server T}.

Implicit Types (lb : LoadBalancer T) (s : T) (fuel : nat).

Lemma ServeProxy_Ret fuel lb r lb' evs :
  ServeProxy fuel lb r = Ret (lb', evs) →
  ∃ s, GetNextAvailableServer fuel lb = Ret (s, lb') ∧
       evs = [Forwarding (Address s); Served (Address s) (Serve s r)].
Proof.
  unfold ServeProxy.
  destruct (GetNextAvailableServer fuel lb) as [[s lb1]| |]; simpl; try done.
  intros [= <- <-]. eauto.
Qed.

(** Serving requests moves the cursor and nothing else, and forwards once
    per request. *)
Lemma serveAll_frame fuel lb rs lb' evs :
  serveAll fuel lb rs = Ret (lb', evs) →
  servers lb' = servers lb ∧ port lb' = port lb ∧ attempts evs = length rs.
Proof.
  revert lb lb' evs. induction rs as [|r rs IH]; intros lb lb' evs Hr.
  - by injection Hr as <- <-.
  - cbn [serveAll] in Hr.
    destruct (ServeProxy fuel lb r) as [[lb1 evs1]| |] eqn:H1; simpl in Hr; try done.
    destruct (serveAll fuel lb1 rs) as [[lb2 evs2]| |] eqn:H2; simpl in Hr; try done.
    injection Hr as <- <-.
    apply IH in H2 as (Hs2 & Hp2 & Ha2).
    apply ServeProxy_Ret in H1 as (s & Hsel & ->).
    apply GetNext_frame in Hsel as [Hs1 Hp1].
    split; [congruence|]. split; [congruence|].
    unfold attempts in *. simpl. by rewrite Ha2.
Qed.

End Dispatch.

(** The pool of [main] with every upstream down: one forward, answered by
    the proxy's 502, and the call returns. *)
Lemma three_failing_backends_one_attempt :
  ServeProxy 1 (main_lb net_down) get_root
  = Ret (with_cursor 1 (main_lb net_down),
         [Forwarding amazon; Served amazon badGateway]) ∧
  attempts <$> trace (ServeProxy 1 (main_lb net_down) get_root) = Some 1%nat ∧
  attempts <$> trace (ServeProxy 1 (main_lb net_down) get_root) ≠ Some 3%nat.
Proof. repeat split; done. Qed.

(** C2, as the code has it: over a non-empty pool of [SimpleServer]s whose
    round trips all fail at the transport level (three of them or any
    number), at a non-negative cursor, [ServeProxy] makes exactly one
    forward attempt, to the server under the cursor, the proxy answers 502,
    and the call returns; nothing is retried. *)
Theorem dispatch_single_attempt (lb : LoadBalancer SimpleServer) (req : Request) (fuel : nat) :
  servers lb ≠ [] →
  (∀ s, s ∈ servers lb → Transport (proxy s) (target (proxy s)) req = None) →
  0 <= roundRobinCount lb →
  ∃ s, servers lb !! Z.to_nat (roundRobinCount lb mod len (servers lb)) = Some s ∧
       ServeProxy (S fuel) lb req
       = Ret (bump lb, [Forwarding (addr s); Served (addr s) badGateway]) ∧
       attempts <$> trace (ServeProxy (S fuel) lb req) = Some 1%nat.
Proof.
  intros Hne Hfail Hc.
  destruct (simple_pool_step lb fuel Hne Hc) as (s & Hs & Hret).
  exists s. split; [done|].
  assert (ServeProxy (S fuel) lb req
          = Ret (bump lb, [Forwarding (addr s); Served (addr s) badGateway])) as ->.
  { unfold ServeProxy. rewrite Hret. simpl. unfold ServeHTTP.
    by rewrite Hfail by (by eapply list_elem_of_lookup_2). }
  done.
Qed.

(** The pool of [main] with only the third upstream answering: the fresh
    balancer forwards to the first server, whose round trip fails, and
    returns the proxy's 502; the third server's answer is not what comes
    back, and one forward was made, not three. *)
Lemma third_backend_not_reached :
  Serve (simple net_third_up instagram) get_root = ok200 ∧
  responses <$> trace (ServeProxy 1 (main_lb net_third_up) get_root) = Some [badGateway] ∧
  responses <$> trace (ServeProxy 1 (main_lb net_third_up) get_root)
    ≠ Some [badGateway; badGateway; ok200] ∧
  bad_gateways <$> trace (ServeProxy 1 (main_lb net_third_up) get_root) = Some 1%nat ∧
  servers <$> final (ServeProxy 1 (main_lb net_third_up) get_root)
    = Some (main_servers net_third_up).
Proof. repeat split; done. Qed.

(** C3, as the code has it: over three [SimpleServer]s of which the first
    two fail at the transport level and the third answers, [ServeProxy]
    forwards once, to the server at index [cursor mod 3], and what comes
    back is that server's answer: the proxy's 502 under the first or the
    second, the third's response only with the cursor on the third.  It
    records neither failure nor success: the servers are as before and
    only the cursor has moved. *)
Theorem dispatch_returns_cursor_backend
    (net : RoundTripper) (a1 a2 a3 p : string) (c : Z) (req : Request)
    (resp : Response) (fuel : nat) :
  net a1 req = None → net a2 req = None → net a3 req = Some resp →
  0 <= c →
  ServeProxy (S fuel)
    {| port := p; roundRobinCount := c;
       servers := [simple net a1; simple net a2; simple net a3] |} req
  = Ret ({| port := p; roundRobinCount := incr c;
            servers := [simple net a1; simple net a2; simple net a3] |},
         match c mod 3 with
         | 0 => [Forwarding a1; Served a1 badGateway]
         | 1 => [Forwarding a2; Served a2 badGateway]
         | _ => [Forwarding a3; Served a3 resp]
         end).
Proof.
  intros H1 H2 H3 Hc.
  unfold ServeProxy. cbn [GetNextAvailableServer]. simpl roundRobinCount. simpl servers.
  change (len [simple net a1; simple net a2; simple net a3]) with 3.
  rewrite int_rem_nonneg by lia. simpl mbind.
  pose proof (Z.mod_pos_bound c 3 ltac:(lia)) as Hb.
  assert (c mod 3 = 0 ∨ c mod 3 = 1 ∨ c mod 3 = 2) as [E|[E|E]] by lia;
    rewrite E; simpl; unfold ServeHTTP; simpl; by rewrite ?H1, ?H2, ?H3.
Qed.

(** One [SimpleServer] whose upstream is down, three requests in a row:
    three forwards, each answered 502, and the server still reports
    alive. *)
Lemma three_failures_still_alive :
  bad_gateways <$> trace (serveAll 1 lb_single [get_root; get_root; get_root])
    = Some 3%nat ∧
  (fun lb => IsAlive <$> servers lb)
    <$> final (serveAll 1 lb_single [get_root; get_root; get_root]) = Some [true] ∧
  (fun lb => IsAlive <$> servers lb)
    <$> final (serveAll 1 lb_single [get_root; get_root; get_root]) ≠ Some [false].
Proof. repeat split; done. Qed.

(** C7, as the code has it: [IsAlive] of a [SimpleServer] is true
    unconditionally.  After any run of dispatches, whatever their
    outcomes, the balancer holds the same servers, every one of them still
    reports alive, and each request was forwarded once; no failure count
    exists that could flip the report, so a later success has nothing to
    restore. *)
Theorem simple_server_stays_alive
    (lb lb' : LoadBalancer SimpleServer) (rs : list Request) (fuel : nat)
    (evs : list Event) :
  serveAll fuel lb rs = Ret (lb', evs) →
  servers lb' = servers lb ∧
  (∀ s, s ∈ servers lb' → IsAlive s = true) ∧
  attempts evs = length rs.
Proof.
  intros Hrun. apply serveAll_frame in Hrun as (Hs & _ & Ha).
  split; [done|]. split; [|done]. by intros s _.
Qed.

(** ** The statements at the pool of [main] *)




Lemma dispatch_single_attempt_witness :
  servers (main_lb net_down) ≠ [] ∧
  (∀ s, s ∈ servers (main_lb net_down) →
        Transport (proxy s) (target (proxy s)) get_root = None) ∧
  0 <= roundRobinCount (main_lb net_down) ∧
  ∃ s, servers (main_lb net_down)
         !! Z.to_nat (roundRobinCount (main_lb net_down)
                      mod len (servers (main_lb net_down))) = Some s ∧
       ServeProxy 1 (main_lb net_down) get_root
       = Ret (bump (main_lb net_down), [Forwarding (addr s); Served (addr s) badGateway]) ∧
       attempts <$> trace (ServeProxy 1 (main_lb net_down) get_root) = Some 1%nat.
Proof.
  assert (servers (main_lb net_down) ≠ []) as H1 by done.
  assert (∀ s, s ∈ servers (main_lb net_down) →
               Transport (proxy s) (target (proxy s)) get_root = None) as H2.
  { intros s Hs. apply list_elem_of_In in Hs. simpl in Hs.
    intuition (subst; reflexivity). }
  assert (0 <= roundRobinCount (main_lb net_down)) as H3 by (simpl; lia).
  repeat (split; [assumption|]).
  exact (dispatch_single_attempt (main_lb net_down) get_root 0 H1 H2 H3).
Defined.

Lemma dispatch_returns_cursor_backend_witness :
  net_third_up amazon get_root = None ∧
  net_third_up yahoo get_root = None ∧
  net_third_up instagram get_root = Some ok200 ∧
  0 <= 0 ∧
  ServeProxy 1 (main_lb net_third_up) get_root
  = Ret (with_cursor 1 (main_lb net_third_up),
         [Forwarding amazon; Served amazon badGateway]).
Proof.
  assert (net_third_up amazon get_root = None) as H1 by reflexivity.
  assert (net_third_up yahoo get_root = None) as H2 by reflexivity.
  assert (net_third_up instagram get_root = Some ok200) as H3 by reflexivity.
  assert (0 <= 0) as H4 by lia.
  repeat (split; [assumption|]).
  exact (dispatch_returns_cursor_backend net_third_up amazon yahoo instagram "8000" 0
           get_root ok200 0 H1 H2 H3 H4).
Defined.

Lemma simple_server_stays_alive_witness :
  serveAll 1 lb_single [get_root; get_root; get_root]
  = Ret (with_cursor 3 lb_single,
         [Forwarding amazon; Served amazon badGateway;
          Forwarding amazon; Served amazon badGateway;
          Forwarding amazon; Served amazon badGateway]) ∧
  servers (with_cursor 3 lb_single) = servers lb_single ∧
  (∀ s, s ∈ servers (with_cursor 3 lb_single) → IsAlive s = true) ∧
  attempts [Forwarding amazon; Served amazon badGateway;
            Forwarding amazon; Served amazon badGateway;
            Forwarding amazon; Served amazon badGateway] = 3%nat.
Proof.
  assert (serveAll 1 lb_single [get_root; get_root; get_root]
          = Ret (with_cursor 3 lb_single,
                 [Forwarding amazon; Served amazon badGateway;
                  Forwarding amazon; Served amazon badGateway;
                  Forwarding amazon; Served amazon badGateway])) as H1 by reflexivity.
  split; [assumption|].
  exact (simple_server_stays_alive lb_single (with_cursor 3 lb_single)
           [get_root; get_root; get_root] 1 _ H1).
Defined.


(** ** Pools with dead servers among the live ones *)

Section LivePools.

Context {T : Type} `{Server T}.

Implicit Types (lb : LoadBalancer T) (s : T) (fuel : nat).

(** One turn of the loop at a non-negative cursor. *)
Lemma GetNext_step lb x fuel :
  servers lb ≠ [] → 0 <= roundRobinCount lb →
  servers lb !! Z.to_nat (roundRobinCount lb mod len (servers lb)) = Some x →
  GetNextAvailableServer (S fuel) lb
  = if IsAlive x then Ret (x, bump lb) else GetNextAvailableServer fuel (bump lb).
Proof.
  intros Hne Hc Hx. pose proof (len_pos _ Hne) as Hpos.
  cbn [GetNextAvailableServer]. rewrite int_rem_nonneg by done. simpl.
  rewrite (index_lookup _ _ x); [done | apply Z.mod_pos_bound; done | done].
Qed.

(** Selections over a stretch [seg] of the pool read cyclically from the
    cursor: as many calls as [seg] has live servers return exactly those,
    in order. *)
Lemma scan_segment (seg : list T) lb fuel :
  servers lb ≠ [] → 0 <= roundRobinCount lb →
  roundRobinCount lb + Z.of_nat (length seg) <= MaxInt →
  (length seg ≤ fuel)%nat →
  (∀ i : nat, (i < length seg)%nat →
     seg !! i = servers lb !! Z.to_nat ((roundRobinCount lb + Z.of_nat i) mod len (servers lb))) →
  ∃ lb', calls (length (List.filter IsAlive seg)) fuel lb
         = Ret (List.filter IsAlive seg, lb') ∧
         servers lb' = servers lb ∧ port lb' = port lb ∧
         roundRobinCount lb <= roundRobinCount lb' <= roundRobinCount lb + Z.of_nat (length seg).
Proof.
  revert lb fuel. induction seg as [|x seg IH]; intros lb fuel Hne Hc Hmax Hfuel Hseg.
  - exists lb. simpl. repeat split; lia.
  - destruct fuel as [|f]; [simpl in Hfuel; lia|].
    simpl length in *.
    assert (servers lb !! Z.to_nat (roundRobinCount lb mod len (servers lb)) = Some x) as Hx.
    { pose proof (Hseg 0%nat ltac:(lia)) as H0.
      change (Z.of_nat 0) with 0 in H0. rewrite Z.add_0_r in H0. by rewrite <- H0. }
    assert (roundRobinCount (bump lb) = roundRobinCount lb + 1) as Hb.
    { simpl. apply incr_below; lia. }
    assert (∀ i : nat, (i < length seg)%nat →
              seg !! i = servers (bump lb)
                !! Z.to_nat ((roundRobinCount (bump lb) + Z.of_nat i) mod len (servers (bump lb))))
      as Hseg'.
    { intros i Hi. rewrite Hb. simpl servers.
      replace (roundRobinCount lb + 1 + Z.of_nat i)
        with (roundRobinCount lb + Z.of_nat (S i)) by lia.
      rewrite <- Hseg by lia. done. }
    pose proof (GetNext_step lb x f Hne Hc Hx) as Hstep.
    simpl List.filter. destruct (IsAlive x) eqn:Hal.
    + destruct (IH (bump lb) (S f)) as (lb' & Hcalls & Hs & Hp & Hr);
        try done; try (rewrite Hb; lia); try lia.
      exists lb'. split; [|repeat split; try done; rewrite Hb in Hr; lia].
      simpl length. cbn [calls]. rewrite Hstep. simpl. by rewrite Hcalls.
    + destruct (List.filter IsAlive seg) as [|y ys] eqn:Hf.
      * exists lb. simpl. repeat split; lia.
      * destruct (IH (bump lb) f) as (lb1 & Hcalls1 & _);
          try done; try (rewrite Hb; lia); try lia.
        destruct (IH (bump lb) (S f)) as (lb' & Hcalls & Hs & Hp & Hr);
          try done; try (rewrite Hb; lia); try lia.
        simpl length in *.
        exists lb'. split; [|repeat split; try done; rewrite Hb in Hr; lia].
        cbn [calls] in *. rewrite Hstep.
        rewrite (fuel_mono f (S f) (bump lb)) in Hcalls; [done | lia |].
        by destruct (GetNextAvailableServer f (bump lb)) as [[??]| |].
Qed.

(** The pool rotated to the cursor is such a stretch. *)
Lemma rotate_is_segment (ss : list T) (c : Z) (i : nat) :
  ss ≠ [] → (i < length ss)%nat →
  rotate (Z.to_nat (c mod len ss)) ss !! i = ss !! Z.to_nat ((c + Z.of_nat i) mod len ss).
Proof.
  intros Hne Hi. pose proof (len_pos _ Hne) as Hpos.
  rewrite lookup_rotate_r by done. f_equal.
  unfold rotate_nat_add. f_equal.
  rewrite Z2Nat.id by (apply Z.mod_pos_bound; done).
  fold (len ss). by rewrite Zplus_mod_idemp_l.
Qed.

Lemma find_filter (P : T → bool) (l : list T) (x : T) :
  List.find P l = Some x → ∃ rest, List.filter P l = x :: rest.
Proof.
  induction l as [|y l IH]; [done|]. simpl.
  destruct (P y); [intros [= ->]; eauto | done].
Qed.

Lemma find_live (l : list T) (a : T) :
  a ∈ l → IsAlive a = true → ∃ x, List.find IsAlive l = Some x.
Proof.
  induction l as [|y l IH]; intros Hin Hal; [by apply not_elem_of_nil in Hin|].
  simpl. destruct (IsAlive y) eqn:Hy; [eauto|].
  apply elem_of_cons in Hin as [->|Hin]; [congruence | by apply IH].
Qed.

End LivePools.

Section SelectionProperties.

Context {T : Type} `{Server T}.

Implicit Types (lb : LoadBalancer T) (s : T) (fuel : nat).

Lemma filter_rotate_length (P : T → bool) (n : nat) (l : list T) :
  length (List.filter P (rotate n l)) = length (List.filter P l).
Proof.
  unfold rotate. set (m := (n `mod` length l)%nat).
  assert (length (List.filter P l)
          = length (List.filter P (take m l ++ drop m l))) as -> by (by rewrite take_drop).
  rewrite !List.filter_app, !length_app. lia.
Qed.

Lemma single_server_step p c s fuel :
  IsAlive s = true →
  GetNextAvailableServer (S fuel) {| port := p; roundRobinCount := c; servers := [s] |}
  = Ret (s, {| port := p; roundRobinCount := incr c; servers := [s] |}).
Proof.
  intros Hal. cbn [GetNextAvailableServer]. simpl roundRobinCount. simpl servers.
  unfold int_rem. simpl len. simpl. rewrite Z.rem_1_r. simpl. by rewrite Hal.
Qed.

(** X1: a server handed back by [GetNextAvailableServer] is a member of
    the balancer's list and reported alive when it was probed, and the call
    has changed nothing but the cursor: the list and the port are as they
    were. *)
Theorem selection_returns_live_member fuel lb s lb' :
  GetNextAvailableServer fuel lb = Ret (s, lb') →
  s ∈ servers lb ∧ IsAlive s = true ∧
  servers lb' = servers lb ∧ port lb' = port lb.
Proof.
  intros Hr. destruct (GetNext_sound _ _ _ _ Hr) as [Hin Hal].
  destruct (GetNext_frame _ _ _ _ Hr) as [Hs Hp]. done.
Qed.

(** X2: when some server of the list is alive, and the cursor is
    non-negative and at least [len(servers)] short of [MaxInt], the loop
    ends within [len(servers)] turns: it returns the first live server of
    the list read cyclically from index [cursor % len], and leaves the
    cursor between one and [len(servers)] higher. *)
Theorem selection_finds_first_live lb fuel a :
  a ∈ servers lb → IsAlive a = true →
  0 <= roundRobinCount lb →
  roundRobinCount lb + len (servers lb) <= MaxInt →
  ∃ s lb',
    List.find IsAlive
      (rotate (Z.to_nat (roundRobinCount lb mod len (servers lb))) (servers lb)) = Some s ∧
    GetNextAvailableServer (length (servers lb) + fuel) lb = Ret (s, lb') ∧
    servers lb' = servers lb ∧
    roundRobinCount lb < roundRobinCount lb' <= roundRobinCount lb + len (servers lb).
Proof.
  intros Hin Hal Hc Hmax.
  assert (servers lb ≠ []) as Hne by (intros E; rewrite E in Hin; by apply not_elem_of_nil in Hin).
  set (k := Z.to_nat (roundRobinCount lb mod len (servers lb))).
  destruct (find_live (rotate k (servers lb)) a) as [s Hfind];
    [by apply elem_of_rotate | done |].
  destruct (find_filter _ _ _ Hfind) as [rest Hrest].
  destruct (scan_segment (rotate k (servers lb)) lb (length (servers lb)))
    as (lb2 & Hcalls & _); try done.
  { rewrite length_rotate. done. }
  { by rewrite length_rotate. }
  { intros i Hi. rewrite length_rotate in Hi. by apply rotate_is_segment. }
  rewrite Hrest in Hcalls. simpl length in Hcalls. cbn [calls] in Hcalls.
  destruct (GetNextAvailableServer (length (servers lb)) lb) as [[s1 lb1]| |] eqn:Hsel;
    simpl in Hcalls; try done.
  destruct (calls _ _ lb1) as [[ss1 lb3]| |]; simpl in Hcalls; try done.
  injection Hcalls as -> _ _.
  exists s, lb1. split; [done|]. split.
  { rewrite <- Hsel. apply fuel_mono; [lia | by rewrite Hsel]. }
  destruct (GetNext_forward _ _ _ _ Hsel) as (j & Hj & _ & _ & _ & ->).
  split; [done|]. unfold with_cursor. cbn [roundRobinCount].
  rewrite (iter_incr _ (S j)) by (unfold len in *; lia). unfold len. lia.
Qed.

(** X3: on a pool with dead servers among the live ones, as many
    consecutive selections as there are live servers return exactly the
    live servers, each once, in the order of the list read cyclically from
    index [cursor % len]; no dead server is returned.  The cursor is
    non-negative and at least [len(servers)] short of [MaxInt]. *)
Theorem live_servers_in_turn lb fuel :
  servers lb ≠ [] →
  0 <= roundRobinCount lb →
  roundRobinCount lb + len (servers lb) <= MaxInt →
  ∃ lb',
    calls (length (List.filter IsAlive (servers lb))) (length (servers lb) + fuel) lb
    = Ret (List.filter IsAlive
             (rotate (Z.to_nat (roundRobinCount lb mod len (servers lb))) (servers lb)),
           lb') ∧
    servers lb' = servers lb ∧
    roundRobinCount lb <= roundRobinCount lb' <= roundRobinCount lb + len (servers lb).
Proof.
  intros Hne Hc Hmax.
  set (k := Z.to_nat (roundRobinCount lb mod len (servers lb))).
  destruct (scan_segment (rotate k (servers lb)) lb (length (servers lb) + fuel))
    as (lb' & Hcalls & Hs & _ & Hr); try done.
  { rewrite length_rotate. done. }
  { rewrite length_rotate. lia. }
  { intros i Hi. rewrite length_rotate in Hi. by apply rotate_is_segment. }
  rewrite filter_rotate_length in Hcalls. rewrite length_rotate in Hr.
  exists lb'. done.
Qed.

(** X4: on a pool whose servers are all alive, the [i]-th of any number
    [n] of consecutive selections returns the server at index
    [(cursor + i) mod len(servers)], so the walk repeats with period
    [len(servers)], and the cursor ends [n] higher; the cursor is
    non-negative and stays below the wrap. *)
Theorem live_pool_walk (n : nat) lb fuel :
  servers lb ≠ [] → all_alive (servers lb) →
  0 <= roundRobinCount lb → roundRobinCount lb + Z.of_nat n <= MaxInt →
  ∃ got,
    calls n (S fuel) lb = Ret (got, with_cursor (roundRobinCount lb + Z.of_nat n) lb) ∧
    length got = n ∧
    ∀ i : nat, (i < n)%nat →
      got !! i = servers lb !! Z.to_nat ((roundRobinCount lb + Z.of_nat i) mod len (servers lb)).
Proof. apply calls_live_pool. Qed.

(** X5: a balancer fresh from [NewLoadBalancer] over a non-empty list of
    live servers hands them out in the order of the list: the first
    [len(servers)] selections return the list itself. *)
Theorem fresh_balancer_list_order (p : string) (ss : list T) fuel :
  ss ≠ [] → all_alive ss → len ss <= MaxInt →
  calls (length ss) (S fuel) (NewLoadBalancer p ss)
  = Ret (ss, with_cursor (len ss) (NewLoadBalancer p ss)).
Proof.
  intros Hne Hal Hmax.
  destruct (calls_live_pool (length ss) (NewLoadBalancer p ss) fuel)
    as (got & Hcalls & Hlen & Hgot); try done.
  rewrite Hcalls. simpl roundRobinCount. rewrite Z.add_0_l.
  do 2 f_equal. apply list_eq. intros i.
  destruct (decide (i < length ss)%nat) as [Hi|Hi].
  - rewrite Hgot by done. unfold NewLoadBalancer. cbn [roundRobinCount servers].
    rewrite Z.add_0_l, Z.mod_small by (unfold len; lia).
    by rewrite Nat2Z.id.
  - rewrite !lookup_ge_None_2; [done | lia | lia].
Qed.

(** X6: when every server of the list reports dead, no number of loop
    turns makes [GetNextAvailableServer] or [ServeProxy] return, at any
    cursor; and from a non-negative cursor over a non-empty list the loop
    does not even panic before the cursor has run up to the wrap. *)
Theorem dead_pool_never_answers lb (r : Request) :
  all_dead (servers lb) →
  (∀ fuel, returns (GetNextAvailableServer fuel lb) = false) ∧
  (∀ fuel, returns (ServeProxy fuel lb r) = false) ∧
  (servers lb ≠ [] → 0 <= roundRobinCount lb →
   ∀ fuel, roundRobinCount lb + Z.of_nat fuel <= MaxInt + 1 →
           GetNextAvailableServer fuel lb = Spin).
Proof.
  intros Hdead. split; [|split].
  - intros fuel. by apply all_dead_never_returns.
  - intros fuel. pose proof (all_dead_never_returns fuel lb Hdead) as Hn.
    unfold ServeProxy.
    by destruct (GetNextAvailableServer fuel lb) as [[??]| |].
  - intros Hne Hc fuel Hf. by apply all_dead_spins.
Qed.

(** X7: a balancer over a single server that reports dead never leaves
    the loop, whatever the cursor: [c % 1] is [0] for every [c], so there
    is no panic either, and [ServeProxy] never comes back. *)
Theorem single_dead_server_hangs (p : string) (c : Z) (d : T) (r : Request) fuel :
  IsAlive d = false →
  GetNextAvailableServer fuel {| port := p; roundRobinCount := c; servers := [d] |} = Spin ∧
  ServeProxy fuel {| port := p; roundRobinCount := c; servers := [d] |} r = Spin.
Proof.
  intros Hd. pose proof (single_dead_spins_forever fuel p c d Hd) as Hs.
  split; [done|]. unfold ServeProxy. by rewrite Hs.
Qed.

(** X8: a balancer over a single live server is safe at the wrap: at
    every cursor, negative ones included, any number of selections return
    that server, each in one loop turn, the cursor being incremented once
    per call. *)
Theorem single_live_server_any_cursor (n : nat) (p : string) (c : Z) s fuel :
  IsAlive s = true →
  calls n (S fuel) {| port := p; roundRobinCount := c; servers := [s] |}
  = Ret (replicate n s,
         {| port := p; roundRobinCount := Nat.iter n incr c; servers := [s] |}).
Proof.
  intros Hal. revert c. induction n as [|n IH]; intros c; [done|].
  cbn [calls]. rewrite single_server_step by done. simpl.
  rewrite IH. simpl. by rewrite <- Nat.iter_succ_r.
Qed.

(** X9: over a non-empty list, a cursor whose remainder by
    [len(servers)] is negative makes [GetNextAvailableServer] panic on its
    first turn with an index out of range, before any server is probed,
    and [ServeProxy] panics with it. *)
Theorem negative_remainder_crashes lb (r : Request) fuel :
  servers lb ≠ [] →
  Z.rem (roundRobinCount lb) (len (servers lb)) < 0 →
  GetNextAvailableServer (S fuel) lb
  = Panic (IndexOutOfRange (Z.rem (roundRobinCount lb) (len (servers lb)))
                           (len (servers lb))) ∧
  ServeProxy (S fuel) lb r
  = Panic (IndexOutOfRange (Z.rem (roundRobinCount lb) (len (servers lb)))
                           (len (servers lb))).
Proof.
  intros Hne Hneg. pose proof (negative_remainder_panics fuel lb Hne Hneg) as Hp.
  split; [done|]. unfold ServeProxy. by rewrite Hp.
Qed.

End SelectionProperties.

(** ** Serving sequences of requests *)

Section Serving.

Context {T : Type} `{Server T}.

Implicit Types (lb : LoadBalancer T) (s : T) (fuel : nat).

(** Requests served by a live pool away from the wrap. *)
Lemma serve_live_pool lb (rs : list Request) fuel :
  servers lb ≠ [] → all_alive (servers lb) →
  0 <= roundRobinCount lb →
  roundRobinCount lb + Z.of_nat (length rs) <= MaxInt →
  ∃ evs,
    serveAll (S fuel) lb rs
    = Ret (with_cursor (roundRobinCount lb + Z.of_nat (length rs)) lb, evs) ∧
    length evs = (2 * length rs)%nat ∧
    ∀ (i : nat) (r : Request), rs !! i = Some r →
      ∃ s, servers lb !! Z.to_nat ((roundRobinCount lb + Z.of_nat i) mod len (servers lb))
           = Some s ∧
           evs !! (2 * i)%nat = Some (Forwarding (Address s)) ∧
           evs !! (2 * i + 1)%nat = Some (Served (Address s) (Serve s r)).
Proof.
  revert lb. induction rs as [|r rs IH]; intros lb Hne Hal Hc Hmax.
  - exists []. split; [|split; [done | intros i r' Hi; done]].
    simpl. rewrite Z.add_0_r. by destruct lb.
  - simpl length in Hmax.
    destruct (live_pool_step lb fuel) as (a & Ha & Hstep); try done; [lia|].
    destruct (IH (with_cursor (roundRobinCount lb + 1) lb)) as (evs & Hrun & Hlen & Hevs);
      try done; simpl roundRobinCount; try lia.
    exists ([Forwarding (Address a); Served (Address a) (Serve a r)] ++ evs).
    split; [|split].
    + cbn [serveAll]. unfold ServeProxy at 1. rewrite Hstep. simpl mbind.
      rewrite Hrun. simpl. do 2 f_equal. unfold with_cursor. simpl. f_equal. lia.
    + simpl. rewrite Hlen. lia.
    + intros [|i] r' Hi.
      * injection Hi as <-. exists a. change (Z.of_nat 0) with 0.
        rewrite Z.add_0_r. done.
      * simpl in Hi. destruct (Hevs i r' Hi) as (s & Hs & Hf & Hv).
        exists s. simpl servers in Hs. simpl roundRobinCount in Hs. split; [|split].
        -- by replace (roundRobinCount lb + Z.of_nat (S i))
             with (roundRobinCount lb + 1 + Z.of_nat i) by lia.
        -- replace (2 * S i)%nat with (S (S (2 * i))) by lia. exact Hf.
        -- replace (2 * S i + 1)%nat with (S (S (2 * i + 1))) by lia. exact Hv.
Qed.

(** X10: whatever the servers report, [ServeProxy] only ever forwards to a
    member of the balancer's list that reported alive: every line it
    prints and every forward in the trace of a run of requests names such
    a server, and a forward carries that server's answer to one of the
    requests. *)
Theorem dispatch_only_to_live_members fuel lb (rs : list Request) lb' (evs : list Event) :
  serveAll fuel lb rs = Ret (lb', evs) →
  Forall (λ e, ∃ s, s ∈ servers lb ∧ IsAlive s = true ∧
                (e = Forwarding (Address s) ∨
                 ∃ r, r ∈ rs ∧ e = Served (Address s) (Serve s r))) evs.
Proof.
  revert lb lb' evs. induction rs as [|r rs IH]; intros lb lb' evs Hr.
  - injection Hr as <- <-. constructor.
  - cbn [serveAll] in Hr.
    destruct (ServeProxy fuel lb r) as [[lb1 evs1]| |] eqn:H1; simpl in Hr; try done.
    destruct (serveAll fuel lb1 rs) as [[lb2 evs2]| |] eqn:H2; simpl in Hr; try done.
    injection Hr as <- <-.
    apply ServeProxy_Ret in H1 as (s & Hsel & ->).
    destruct (GetNext_sound _ _ _ _ Hsel) as [Hin Hal].
    destruct (GetNext_frame _ _ _ _ Hsel) as [Hs _].
    apply IH in H2. rewrite Hs in H2.
    apply Forall_app. split.
    + repeat constructor.
      * exists s. eauto.
      * exists s. repeat split; [done..|]. right. exists r. split; [left | done].
    + eapply Forall_impl; [exact H2|]. simpl.
      intros e (s' & ? & ? & [->|(r' & ? & ->)]); exists s'; repeat split; try done.
      * by left.
      * right. exists r'. split; [by right | done].
Qed.


(** X12: over a non-empty pool of live servers, with the cursor
    non-negative and below the wrap for the whole run, every request is
    answered: the [i]-th request is announced and forwarded, once, to the
    server at index [(cursor + i) mod len(servers)], what is written back
    is that server's answer to it, and the cursor ends one higher per
    request. *)
Theorem live_pool_serves_in_turn lb (rs : list Request) fuel :
  servers lb ≠ [] → all_alive (servers lb) →
  0 <= roundRobinCount lb →
  roundRobinCount lb + Z.of_nat (length rs) <= MaxInt →
  ∃ evs,
    serveAll (S fuel) lb rs
    = Ret (with_cursor (roundRobinCount lb + Z.of_nat (length rs)) lb, evs) ∧
    length evs = (2 * length rs)%nat ∧
    ∀ (i : nat) (r : Request), rs !! i = Some r →
      ∃ s, servers lb !! Z.to_nat ((roundRobinCount lb + Z.of_nat i) mod len (servers lb))
           = Some s ∧
           evs !! (2 * i)%nat = Some (Forwarding (Address s)) ∧
           evs !! (2 * i + 1)%nat = Some (Served (Address s) (Serve s r)).
Proof. apply serve_live_pool. Qed.

End Serving.



(** ** The further statements at concrete pools *)

Lemma selection_returns_live_member_witness :
  GetNextAvailableServer 2 lb_mixed = Ret (live amazon, with_cursor 8 lb_mixed) ∧
  live amazon ∈ servers lb_mixed ∧ IsAlive (live amazon) = true ∧
  servers (with_cursor 8 lb_mixed) = servers lb_mixed ∧
  port (with_cursor 8 lb_mixed) = port lb_mixed.
Proof.
  assert (GetNextAvailableServer 2 lb_mixed = Ret (live amazon, with_cursor 8 lb_mixed))
    as H1 by reflexivity.
  split; [assumption|].
  exact (selection_returns_live_member 2 lb_mixed (live amazon) (with_cursor 8 lb_mixed) H1).
Defined.

Lemma selection_finds_first_live_witness :
  live yahoo ∈ servers lb_mixed ∧ IsAlive (live yahoo) = true ∧
  0 <= roundRobinCount lb_mixed ∧
  roundRobinCount lb_mixed + len (servers lb_mixed) <= MaxInt ∧
  ∃ s lb',
    List.find IsAlive
      (rotate (Z.to_nat (roundRobinCount lb_mixed mod len (servers lb_mixed)))
              (servers lb_mixed)) = Some s ∧
    GetNextAvailableServer (length (servers lb_mixed) + 0) lb_mixed = Ret (s, lb') ∧
    servers lb' = servers lb_mixed ∧
    roundRobinCount lb_mixed < roundRobinCount lb'
      <= roundRobinCount lb_mixed + len (servers lb_mixed).
Proof.
  assert (live yahoo ∈ servers lb_mixed) as H1.
  { apply list_elem_of_In. simpl. auto. }
  assert (IsAlive (live yahoo) = true) as H2 by reflexivity.
  assert (0 <= roundRobinCount lb_mixed) as H3 by (simpl; lia).
  assert (roundRobinCount lb_mixed + len (servers lb_mixed) <= MaxInt) as H4
    by (vm_compute; discriminate).
  repeat (split; [assumption|]).
  exact (selection_finds_first_live lb_mixed 0 (live yahoo) H1 H2 H3 H4).
Defined.

Lemma live_servers_in_turn_witness :
  servers lb_mixed ≠ [] ∧
  0 <= roundRobinCount lb_mixed ∧
  roundRobinCount lb_mixed + len (servers lb_mixed) <= MaxInt ∧
  ∃ lb',
    calls 2 4 lb_mixed = Ret ([live amazon; live yahoo], lb') ∧
    servers lb' = servers lb_mixed ∧
    6 <= roundRobinCount lb' <= 6 + 4.
Proof.
  assert (servers lb_mixed ≠ []) as H1 by done.
  assert (0 <= roundRobinCount lb_mixed) as H2 by (simpl; lia).
  assert (roundRobinCount lb_mixed + len (servers lb_mixed) <= MaxInt) as H3
    by (vm_compute; discriminate).
  repeat (split; [assumption|]).
  exact (live_servers_in_turn lb_mixed 0 H1 H2 H3).
Defined.

Lemma live_pool_walk_witness :
  servers (main_lb net_down) ≠ [] ∧ all_alive (servers (main_lb net_down)) ∧
  0 <= roundRobinCount (main_lb net_down) ∧
  roundRobinCount (main_lb net_down) + Z.of_nat 7 <= MaxInt ∧
  ∃ got,
    calls 7 1 (main_lb net_down)
    = Ret (got, with_cursor (roundRobinCount (main_lb net_down) + Z.of_nat 7)
                            (main_lb net_down)) ∧
    length got = 7%nat ∧
    ∀ i : nat, (i < 7)%nat →
      got !! i = servers (main_lb net_down)
                   !! Z.to_nat ((roundRobinCount (main_lb net_down) + Z.of_nat i)
                                mod len (servers (main_lb net_down))).
Proof.
  assert (servers (main_lb net_down) ≠ []) as H1 by done.
  assert (all_alive (servers (main_lb net_down))) as H2 by (intros s _; reflexivity).
  assert (0 <= roundRobinCount (main_lb net_down)) as H3 by (simpl; lia).
  assert (roundRobinCount (main_lb net_down) + Z.of_nat 7 <= MaxInt) as H4
    by (vm_compute; discriminate).
  repeat (split; [assumption|]).
  exact (live_pool_walk 7 (main_lb net_down) 0 H1 H2 H3 H4).
Defined.

Lemma fresh_balancer_list_order_witness :
  main_servers net_down ≠ [] ∧ all_alive (main_servers net_down) ∧
  len (main_servers net_down) <= MaxInt ∧
  calls 3 1 (NewLoadBalancer "8000" (main_servers net_down))
  = Ret (main_servers net_down,
         with_cursor 3 (NewLoadBalancer "8000" (main_servers net_down))).
Proof.
  assert (main_servers net_down ≠ []) as H1 by done.
  assert (all_alive (main_servers net_down)) as H2 by (intros s _; reflexivity).
  assert (len (main_servers net_down) <= MaxInt) as H3 by (vm_compute; discriminate).
  repeat (split; [assumption|]).
  exact (fresh_balancer_list_order "8000" (main_servers net_down) 0 H1 H2 H3).
Defined.

Lemma dead_pool_never_answers_witness :
  all_dead (servers lb_all_dead) ∧
  (∀ fuel, returns (GetNextAvailableServer fuel lb_all_dead) = false) ∧
  (∀ fuel, returns (ServeProxy fuel lb_all_dead get_root) = false) ∧
  (servers lb_all_dead ≠ [] → 0 <= roundRobinCount lb_all_dead →
   ∀ fuel, roundRobinCount lb_all_dead + Z.of_nat fuel <= MaxInt + 1 →
           GetNextAvailableServer fuel lb_all_dead = Spin).
Proof.
  assert (all_dead (servers lb_all_dead)) as H1.
  { intros s Hs. apply list_elem_of_In in Hs. simpl in Hs.
    intuition (subst; reflexivity). }
  split; [assumption|].
  exact (dead_pool_never_answers lb_all_dead get_root H1).
Defined.

Lemma single_dead_server_hangs_witness :
  IsAlive (dead amazon) = false ∧
  GetNextAvailableServer 10
    {| port := "8000"; roundRobinCount := -7; servers := [dead amazon] |} = Spin ∧
  ServeProxy 10
    {| port := "8000"; roundRobinCount := -7; servers := [dead amazon] |} get_root = Spin.
Proof.
  assert (IsAlive (dead amazon) = false) as H1 by reflexivity.
  split; [assumption|].
  exact (single_dead_server_hangs "8000" (-7) (dead amazon) get_root 10 H1).
Defined.

Lemma single_live_server_any_cursor_witness :
  IsAlive (simple net_down amazon) = true ∧
  calls 3 1 {| port := "8000"; roundRobinCount := MaxInt; servers := [simple net_down amazon] |}
  = Ret (replicate 3 (simple net_down amazon),
         {| port := "8000"; roundRobinCount := MinInt + 2;
            servers := [simple net_down amazon] |}).
Proof.
  assert (IsAlive (simple net_down amazon) = true) as H1 by reflexivity.
  split; [assumption|].
  exact (single_live_server_any_cursor 3 "8000" MaxInt (simple net_down amazon) 0 H1).
Defined.

Lemma negative_remainder_crashes_witness :
  servers lb_wrapped ≠ [] ∧
  Z.rem (roundRobinCount lb_wrapped) (len (servers lb_wrapped)) < 0 ∧
  GetNextAvailableServer 1 lb_wrapped = Panic (IndexOutOfRange (-2) 3) ∧
  ServeProxy 1 lb_wrapped get_root = Panic (IndexOutOfRange (-2) 3).
Proof.
  assert (servers lb_wrapped ≠ []) as H1 by done.
  assert (Z.rem (roundRobinCount lb_wrapped) (len (servers lb_wrapped)) < 0) as H2
    by reflexivity.
  repeat (split; [assumption|]).
  exact (negative_remainder_crashes lb_wrapped get_root 0 H1 H2).
Defined.

Lemma dispatch_only_to_live_members_witness :
  serveAll 2 lb_mixed [get_root; get_root]
  = Ret (with_cursor 10 lb_mixed,
         [Forwarding amazon; Served amazon badGateway;
          Forwarding yahoo; Served yahoo badGateway]) ∧
  Forall (λ e, ∃ s, s ∈ servers lb_mixed ∧ IsAlive s = true ∧
                (e = Forwarding (Address s) ∨
                 ∃ r, r ∈ [get_root; get_root] ∧ e = Served (Address s) (Serve s r)))
         [Forwarding amazon; Served amazon badGateway;
          Forwarding yahoo; Served yahoo badGateway].
Proof.
  assert (serveAll 2 lb_mixed [get_root; get_root]
          = Ret (with_cursor 10 lb_mixed,
                 [Forwarding amazon; Served amazon badGateway;
                  Forwarding yahoo; Served yahoo badGateway])) as H1 by reflexivity.
  split; [assumption|].
  exact (dispatch_only_to_live_members 2 lb_mixed [get_root; get_root] _ _ H1).
Defined.

Lemma live_pool_serves_in_turn_witness :
  servers (main_lb net_third_up) ≠ [] ∧ all_alive (servers (main_lb net_third_up)) ∧
  0 <= roundRobinCount (main_lb net_third_up) ∧
  roundRobinCount (main_lb net_third_up) + Z.of_nat (length four_requests) <= MaxInt ∧
  ∃ evs,
    serveAll 1 (main_lb net_third_up) four_requests
    = Ret (with_cursor (roundRobinCount (main_lb net_third_up)
                        + Z.of_nat (length four_requests)) (main_lb net_third_up), evs) ∧
    length evs = (2 * length four_requests)%nat ∧
    ∀ (i : nat) (r : Request), four_requests !! i = Some r →
      ∃ s, servers (main_lb net_third_up)
             !! Z.to_nat ((roundRobinCount (main_lb net_third_up) + Z.of_nat i)
                          mod len (servers (main_lb net_third_up))) = Some s ∧
           evs !! (2 * i)%nat = Some (Forwarding (Address s)) ∧
           evs !! (2 * i + 1)%nat = Some (Served (Address s) (Serve s r)).
Proof.
  assert (servers (main_lb net_third_up) ≠ []) as H1 by done.
  assert (all_alive (servers (main_lb net_third_up))) as H2 by (intros s _; reflexivity).
  assert (0 <= roundRobinCount (main_lb net_third_up)) as H3 by (simpl; lia).
  assert (roundRobinCount (main_lb net_third_up) + Z.of_nat (length four_requests) <= MaxInt)
    as H4 by (vm_compute; discriminate).
  repeat (split; [assumption|]).
  exact (live_pool_serves_in_turn (main_lb net_third_up) four_requests 0 H1 H2 H3 H4).
Defined.

